(** * CFG_Generator: the grammar class of [cfg.py]

    A shallow embedding of the class [CFG] (construction and validation,
    production lookup, the bounded random walk [generate], equality and
    hashing, and the string/production membership queries), followed by the
    properties of the specification that were checked against it.

    Conventions of the embedding.
    - A Python [str] is a [string]; each character stands for one code point
      below 256.
    - A Python [set] of [str] is a [gset string]; the production list is a
      [list] of pairs, as the constructor's annotation
      [List[Tuple[str, List[str]]]] has it.
    - A Python [int] is a [Z].
    - A call either returns or raises: [result].  Every [assert] of the source
      raises [AssertionError]; the constructor of that exception records which
      assertion fired (the source tells them apart by message only).
    - [np.random.choice] reads a global generator.  The generator is threaded
      through [generate] as an explicit state: an arbitrary stream of raw
      draws and the number of draws consumed so far. *)

From Stdlib Require Import ZArith Ascii String.
From stdpp Require Import gmap strings list.

Local Open Scope string_scope.

(** ** Exceptions and results *)

Definition production : Type := string * list string.

(** Which [assert] statement of [cfg.py] failed. *)
Inductive assertion :=
  | Disjointness                         (* validate, line 15 *)
  | InvalidLhs (p : production)          (* validate, line 18 *)
  | InvalidRhsSymbol (p : production)    (* validate, line 20 *)
  | UnknownSymbol (s : string)           (* get_productions_for_symbol, line 23 *)
  | NotNonterminal (s : string)          (* generate, line 27 *)
  | UnsupportedStrategy                  (* generate, line 28 *)
  | InvalidLength.                       (* generate, line 29 *)

Inductive exn :=
  | AssertionError (a : assertion)
  | ValueError (msg : string)
  | IndexError
  | UnboundLocalError (var : string)
  | TypeError (msg : string).

Inductive result (A : Type) :=
  | Ok (a : A)
  | Raise (e : exn).
Arguments Ok {A} a.
Arguments Raise {A} e.

Definition is_ok {A} (r : result A) : bool :=
  match r with Ok _ => true | Raise _ => false end.

#[export] Instance result_ret : MRet result := λ A a, Ok a.
#[export] Instance result_bind : MBind result := λ A B k r,
  match r with
  | Ok a => k a
  | Raise e => Raise e
  end.

(** [assert c, msg] *)
Definition py_assert (c : bool) (a : assertion) : result unit :=
  if c then Ok tt else Raise (AssertionError a).

(** ** The grammar object *)

Record CFG := mkCFG {
  terminal_symbols : gset string;
  nonterminal_symbols : gset string;
  productions : list production;
  all_symbols : gset string
}.

(** [for symbol in production[1]: assert symbol in self.all_symbols] *)
Fixpoint validate_rhs (self : CFG) (p : production) (rhs : list string)
  : result unit :=
  match rhs with
  | [] => Ok tt
  | symbol :: rest =>
      py_assert (bool_decide (symbol ∈ all_symbols self))
                (InvalidRhsSymbol p);;
      validate_rhs self p rest
  end.

(** [for production in self.productions: ...] *)
Fixpoint validate_productions (self : CFG) (ps : list production)
  : result unit :=
  match ps with
  | [] => Ok tt
  | p :: rest =>
      py_assert (bool_decide (p.1 ∈ nonterminal_symbols self))
                (InvalidLhs p);;
      validate_rhs self p p.2;;
      validate_productions self rest
  end.

Definition validate (self : CFG) : result unit :=
  py_assert (size (terminal_symbols self ∩ nonterminal_symbols self) =? 0)%nat
            Disjointness;;
  validate_productions self (productions self).

(** [CFG.__init__] *)
Definition __init__ (terminal_symbols nonterminal_symbols : gset string)
    (productions : list production) : result CFG :=
  let self := mkCFG terminal_symbols nonterminal_symbols productions
                    (terminal_symbols ∪ nonterminal_symbols) in
  validate self;;
  mret self.

(** [get_productions_for_symbol]: the list comprehension is the loop that
    appends the productions whose first component equals [symbol]. *)
Fixpoint productions_with_lhs (symbol : string) (ps : list production)
  : list production :=
  match ps with
  | [] => []
  | p :: rest =>
      if String.eqb p.1 symbol
      then p :: productions_with_lhs symbol rest
      else productions_with_lhs symbol rest
  end.

Definition get_productions_for_symbol (self : CFG) (symbol : string)
  : result (list production) :=
  py_assert (bool_decide (symbol ∈ all_symbols self)) (UnknownSymbol symbol);;
  mret (productions_with_lhs symbol (productions self)).

Definition is_terminal (self : CFG) (symbol : string) : bool :=
  bool_decide (symbol ∈ terminal_symbols self).

Definition is_nonterminal (self : CFG) (symbol : string) : bool :=
  bool_decide (symbol ∈ nonterminal_symbols self).

(** ** Strings *)

(** [sep.join(items)] *)
Fixpoint py_join (sep : string) (items : list string) : string :=
  match items with
  | [] => ""
  | [x] => x
  | x :: rest => x ++ sep ++ py_join sep rest
  end.

(** Iterating over a [str] yields its characters, each a [str] of length 1. *)
Fixpoint chars (s : string) : list string :=
  match s with
  | EmptyString => []
  | String c rest => String c EmptyString :: chars rest
  end.

(** [str.isspace] on one code point below 256. *)
Definition is_space (c : ascii) : bool :=
  let n := nat_of_ascii c in
  ((9 <=? n) && (n <=? 13) || (28 <=? n) && (n <=? 32)
   || (n =? 133) || (n =? 160))%nat.

(** [str.split()] without arguments: the maximal runs of non-whitespace
    characters, left to right.  [cur] is the run being read. *)
Fixpoint split_from (cur : string) (s : string) : list string :=
  match s with
  | EmptyString => if String.eqb cur "" then [] else [cur]
  | String c rest =>
      if is_space c
      then (if String.eqb cur "" then split_from "" rest
            else cur :: split_from "" rest)
      else split_from (cur ++ String c EmptyString) rest
  end.

Definition split (s : string) : list string := split_from "" s.

(** ** The random source *)

Record RandomState := mkRandomState {
  draws : nat → nat;     (* the raw stream of the generator *)
  consumed : nat         (* how many draws were taken from it *)
}.

(** The source after one more draw. *)
Definition advance (rs : RandomState) : RandomState :=
  mkRandomState (draws rs) (S (consumed rs)).

(** A computation that may draw random numbers and may raise. *)
Definition Gen (A : Type) : Type := RandomState → result A * RandomState.

#[export] Instance Gen_ret : MRet Gen := λ A a st, (Ok a, st).
#[export] Instance Gen_bind : MBind Gen := λ A B k m st,
  match m st with
  | (Ok a, st') => k a st'
  | (Raise e, st') => (Raise e, st')
  end.

Definition lift {A} (r : result A) : Gen A := λ st, (r, st).
Definition throw {A} (e : exn) : Gen A := λ st, (Raise e, st).

(** [np.random.choice(a)] for a one-dimensional [a]: one draw, reduced to an
    index of [a]; an empty [a] raises [ValueError] before any draw.  The
    element is returned as it is in [a] (NumPy's round trip through an array
    keeps every string that does not end in a NUL character). *)
Definition choice {A} (a : list A) : Gen A := λ st,
  match a with
  | [] => (Raise (ValueError "'a' cannot be empty unless no samples are taken"), st)
  | x :: _ =>
      (Ok (nth (draws st (consumed st) mod length a) a x), advance st)
  end.

(** [l[i]] for a non-negative [i]. *)
Definition py_index {A} (l : list A) (i : nat) : result A :=
  match l !! i with
  | Some x => Ok x
  | None => Raise IndexError
  end.

(** ** generate *)

(** The state of the [for] loop of [generate]: the two variables assigned
    before the loop and [sampled_output], a local that is unbound until the
    uniform branch assigns it. *)
Record loop_state := mkLoop {
  generated_string : string;
  current_symbol : string;
  sampled_output : option string
}.

(** Reading a local variable. *)
Definition read_local {A} (name : string) (v : option A) : Gen A :=
  match v with
  | Some x => mret x
  | None => throw (UnboundLocalError name)
  end.

(** [for _ in range(n): ...]; [break] and the end of the range both fall
    through to [return generated_string]. *)
Fixpoint generate_loop (self : CFG) (sampling_strategy : string) (n : nat)
    (st : loop_state) : Gen string :=
  match n with
  | O => mret (generated_string st)
  | S n' =>
      productions ← lift (get_productions_for_symbol self (current_symbol st));
      if (length productions =? 0)%nat then mret (generated_string st)
      else
        sampled ← (if String.eqb sampling_strategy "uniform" then
                     production_idx ← choice (seq 0 (length productions));
                     production ← lift (py_index productions production_idx);
                     let possible_outputs := production.2 in
                     so ← choice possible_outputs;
                     mret (Some so)
                   else mret (sampled_output st));
        so ← read_local "sampled_output" sampled;
        let generated_string :=
          generated_string st ++ " " ++ py_join " " (chars so) in
        let current_symbol := so in
        if bool_decide (current_symbol ∈ terminal_symbols self)
        then mret generated_string
        else generate_loop self sampling_strategy n'
               (mkLoop generated_string current_symbol (Some so))
  end.

Definition generate (self : CFG) (symbol : string) (max_length : Z)
    (sampling_strategy : string) : Gen string :=
  lift (py_assert (bool_decide (symbol ∈ nonterminal_symbols self))
                  (NotNonterminal symbol));;
  lift (py_assert (String.eqb sampling_strategy "uniform"
                   || String.eqb sampling_strategy "weighted")
                  UnsupportedStrategy);;
  lift (py_assert (0 <? max_length)%Z InvalidLength);;
  if (max_length =? 1)%Z then mret symbol
  else
    generate_loop self sampling_strategy (Z.to_nat (max_length - 1))
      (mkLoop symbol symbol None).

(** ** Python values, [==] and [hash]

    [__eq__], [__hash__] and [is_valid_production] compare and hash values of
    different Python types (a pair of strings against a pair of a string and a
    list), so these operations are defined on the values themselves. *)

#[warnings="-register-all"]
Inductive pyval :=
  | PStr (s : string)
  | PList (items : list pyval)
  | PTuple (items : list pyval)
  | PSet (members : gset string).

(** [a == b]: values of different types are unequal; lists and tuples are
    equal when they have the same length and equal items. *)
Fixpoint py_eq (a b : pyval) : bool :=
  let fix items_eq (l m : list pyval) : bool :=
    match l, m with
    | [], [] => true
    | x :: l', y :: m' => py_eq x y && items_eq l' m'
    | _, _ => false
    end in
  match a, b with
  | PStr s, PStr t => String.eqb s t
  | PList l, PList m => items_eq l m
  | PTuple l, PTuple m => items_eq l m
  | PSet X, PSet Y => bool_decide (X = Y)
  | _, _ => false
  end.

(** The item-wise comparison of [py_eq], on its own. *)
Definition items_eq : list pyval → list pyval → bool :=
  fix items_eq (l m : list pyval) : bool :=
    match l, m with
    | [] , [] => true
    | x :: l', y :: m' => py_eq x y && items_eq l' m'
    | _, _ => false
    end.

(** [x in l] for a list [l]. *)
Definition py_in (x : pyval) (l : list pyval) : bool :=
  existsb (λ item, py_eq item x) l.

Definition of_production (p : production) : pyval :=
  PTuple [PStr p.1; PList (PStr <$> p.2)].

Definition of_productions (ps : list production) : pyval :=
  PList (of_production <$> ps).

Section Hash.
(** The hash of a string (salted per process) and the mixing of the item
    hashes of a tuple are left abstract. *)
Variable str_hash : string → Z.
Variable tuple_mix : list Z → Z.

(** [hash(v)]: a tuple hashes its items from left to right and fails with
    the first item that fails; sets and lists are unhashable. *)
Fixpoint py_hash (v : pyval) : result Z :=
  let fix items_hash (l : list pyval) : result (list Z) :=
    match l with
    | [] => Ok []
    | x :: rest =>
        h ← py_hash x;
        hs ← items_hash rest;
        mret (h :: hs)
    end in
  match v with
  | PStr s => Ok (str_hash s)
  | PTuple items => hs ← items_hash items; mret (tuple_mix hs)
  | PList _ => Raise (TypeError "unhashable type: 'list'")
  | PSet _ => Raise (TypeError "unhashable type: 'set'")
  end.

(** [CFG.__hash__] *)
Definition __hash__ (self : CFG) : result Z :=
  py_hash (PTuple [PSet (terminal_symbols self);
                   PSet (nonterminal_symbols self);
                   of_productions (productions self)]).
End Hash.

(** [CFG.__eq__]; [and] evaluates left to right and stops at the first
    false operand. *)
Definition __eq__ (self other : CFG) : bool :=
  py_eq (PSet (terminal_symbols self)) (PSet (terminal_symbols other))
  && py_eq (PSet (nonterminal_symbols self)) (PSet (nonterminal_symbols other))
  && py_eq (of_productions (productions self))
           (of_productions (productions other)).

(** ** Membership queries *)

(** [is_valid_production]: [production in self.productions], for any value
    [production]. *)
Definition is_valid_production (self : CFG) (production : pyval) : bool :=
  py_in production (of_production <$> productions self).

(** First loop of [is_valid_string]: [false] at the first token that is not
    a symbol. *)
Fixpoint all_tokens_known (self : CFG) (tokens : list string) : bool :=
  match tokens with
  | [] => true
  | symbol :: rest =>
      if negb (bool_decide (symbol ∈ all_symbols self)) then false
      else all_tokens_known self rest
  end.

(** Second loop of [is_valid_string], [n] iterations from index [i]. *)
Fixpoint adjacent_pairs_valid (self : CFG) (tokens : list string) (i n : nat)
  : result bool :=
  match n with
  | O => Ok true
  | S n' =>
      a ← py_index tokens i;
      b ← py_index tokens (i + 1);
      if negb (is_valid_production self (PTuple [PStr a; PStr b]))
      then Ok false
      else adjacent_pairs_valid self tokens (S i) n'
  end.

Definition is_valid_string (self : CFG) (s : string) : result bool :=
  if negb (all_tokens_known self (split s)) then Ok false
  else adjacent_pairs_valid self (split s) 0
         (Z.to_nat (Z.of_nat (length (split s)) - 1)).

(** ** The grammars of the specification's scenarios *)

Definition g_Sa : CFG :=
  mkCFG {["a"]} {["S"]} [("S", ["a"])] ({["a"]} ∪ {["S"]}).

Definition g_S : CFG := mkCFG ∅ {["S"]} [] (∅ ∪ {["S"]}).

(** A grammar with a two-character terminal, and one with an empty
    right-hand side. *)
Definition g_Sab : CFG :=
  mkCFG {["ab"]} {["S"]} [("S", ["ab"])] ({["ab"]} ∪ {["S"]}).

Definition g_Sabc : CFG :=
  mkCFG {["abc"]} {["S"]} [("S", ["abc"])] ({["abc"]} ∪ {["S"]}).

Definition g_Seps : CFG := mkCFG ∅ {["S"]} [("S", [])] (∅ ∪ {["S"]}).

(** ** Specification-level predicates *)

(** Invariants 2 and 3 for one production. *)
Definition production_ok (T N : gset string) (p : production) : Prop :=
  p.1 ∈ N ∧ Forall (λ s, s ∈ T ∪ N) p.2.

(** The three invariants of the data model. *)
Definition well_formed (T N : gset string) (P : list production) : Prop :=
  T ## N ∧ Forall (production_ok T N) P.

(** What the loop of [validate] asserts of one stored production. *)
Definition stored_ok (self : CFG) (p : production) : Prop :=
  p.1 ∈ nonterminal_symbols self ∧ Forall (λ s, s ∈ all_symbols self) p.2.

(** A grammar that some call of the constructor returned. *)
Definition constructed (g : CFG) : Prop :=
  ∃ T N P, __init__ T N P = Ok g.

(** [y] is a symbol of the right-hand side of a production of [x]. *)
Definition derives (g : CFG) (x y : string) : Prop :=
  ∃ p, p ∈ productions g ∧ p.1 = x ∧ y ∈ p.2.

(** The symbols [rest] are visited in this order after [x]. *)
Fixpoint chain (g : CFG) (x : string) (rest : list string) : Prop :=
  match rest with
  | [] => True
  | y :: rest' => derives g x y ∧ chain g y rest'
  end.

(** The text one step of the walk adds for the symbol it moved to, and the
    text added for a sequence of such symbols. *)
Definition step_text (s : string) : string := " " ++ py_join " " (chars s).

Fixpoint walk_text (rest : list string) : string :=
  match rest with
  | [] => ""
  | s :: rest' => step_text s ++ walk_text rest'
  end.




(** The symbol the walk [x :: rest] ends on. *)
Definition last_visited (x : string) (rest : list string) : string :=
  List.last rest x.

(** Every symbol is one character that is not whitespace. *)
Definition plain_characters (g : CFG) : Prop :=
  ∀ s, s ∈ all_symbols g → ∃ c, s = String c "" ∧ is_space c = false.

(** ** The driver under [if __name__ == "__main__"] *)

(** [string.ascii_lowercase] and [string.ascii_uppercase] of the standard
    library. *)
Definition ascii_lowercase : string := "abcdefghijklmnopqrstuvwxyz".
Definition ascii_uppercase : string := "ABCDEFGHIJKLMNOPQRSTUVWXYZ".

(** [l.remove(x)]: drops the first occurrence of [x]; [ValueError] when
    there is none. *)
Fixpoint py_remove (x : string) (l : list string) : result (list string) :=
  match l with
  | [] => Raise (ValueError "list.remove(x): x not in list")
  | y :: rest =>
      if String.eqb y x then Ok rest
      else rest' ← py_remove x rest; mret (y :: rest')
  end.

(** [for char in cs: production_rules.append((char, list(all)))] *)
Fixpoint append_rules (production_rules : list production)
    (cs all : list string) : list production :=
  match cs with
  | [] => production_rules
  | char :: rest =>
      append_rules (production_rules ++ [(char, all)])%list rest all
  end.

(** The script; its value is the line it prints. *)
Definition main : Gen string :=
  let production_rules := [] in
  let all_ascii_characters := chars (ascii_lowercase ++ ascii_uppercase) in
  all_ascii_characters_without_a ←
    lift (py_remove "a" all_ascii_characters);
  let production_rules :=
    append_rules production_rules all_ascii_characters_without_a
                 all_ascii_characters in
  cfg ← lift (__init__ (list_to_set (chars "a"))
                       (list_to_set all_ascii_characters_without_a)
                       production_rules);
  generate cfg "S" 10 "uniform".

(** The grammar the script builds, for reference in statements. *)
Definition letters : list string := chars (ascii_lowercase ++ ascii_uppercase).

Definition letters_without_a : list string :=
  match py_remove "a" letters with
  | Ok l => l
  | Raise _ => []
  end.

Definition g_main : CFG :=
  mkCFG (list_to_set (chars "a")) (list_to_set letters_without_a)
        (append_rules [] letters_without_a letters)
        (list_to_set (chars "a") ∪ list_to_set letters_without_a).

(** * Properties *)

(** ** Construction and validation *)

Section Validation.
Variable self : CFG.

Lemma validate_rhs_ok p rhs :
  Forall (λ s, s ∈ all_symbols self) rhs → validate_rhs self p rhs = Ok tt.
Proof.
  induction 1 as [|s rhs Hs _ IH]; [done|].
  cbn. rewrite bool_decide_eq_true_2 by done. exact IH.
Qed.

Lemma validate_rhs_raise p rhs :
  ¬ Forall (λ s, s ∈ all_symbols self) rhs →
  validate_rhs self p rhs = Raise (AssertionError (InvalidRhsSymbol p)).
Proof.
  induction rhs as [|s rhs IH]; intros Hbad.
  - destruct Hbad. constructor.
  - cbn. destruct (decide (s ∈ all_symbols self)) as [Hs|Hs].
    + rewrite bool_decide_eq_true_2 by done. cbn.
      apply IH. intros Hrest. apply Hbad. by constructor.
    + by rewrite bool_decide_eq_false_2.
Qed.

Lemma validate_productions_ok ps :
  Forall (stored_ok self) ps → validate_productions self ps = Ok tt.
Proof.
  induction 1 as [|p ps [Hl Hr] _ IH]; [done|].
  cbn. rewrite bool_decide_eq_true_2 by done. cbn.
  rewrite validate_rhs_ok by done. exact IH.
Qed.

(** The loop stops at the first production that breaks an invariant, with
    the assertion on its left-hand side checked first. *)
Lemma validate_productions_first_bad good p rest :
  Forall (stored_ok self) good → ¬ stored_ok self p →
  validate_productions self (good ++ p :: rest) =
    Raise (AssertionError
             (if bool_decide (p.1 ∈ nonterminal_symbols self)
              then InvalidRhsSymbol p else InvalidLhs p)).
Proof.
  intros Hgood Hp. induction Hgood as [|q good [Hl Hr] _ IH].
  - cbn. case_bool_decide as Hl; cbn; [|done].
    rewrite validate_rhs_raise; [done|]. intros Hr. by apply Hp.
  - cbn. rewrite bool_decide_eq_true_2 by done. cbn.
    rewrite validate_rhs_ok by done. exact IH.
Qed.

Lemma validate_productions_inv ps :
  validate_productions self ps = Ok tt → Forall (stored_ok self) ps.
Proof.
  induction ps as [|p ps IH]; [constructor|].
  cbn. case_bool_decide as Hl; cbn; [|done].
  destruct (decide (Forall (λ s, s ∈ all_symbols self) p.2)) as [Hr|Hr].
  - rewrite validate_rhs_ok by done. cbn. intros H.
    constructor; [done|by apply IH].
  - by rewrite validate_rhs_raise.
Qed.
End Validation.

Lemma disjoint_size_inter (T N : gset string) :
  (size (T ∩ N) =? 0)%nat = bool_decide (T ## N).
Proof.
  destruct (size (T ∩ N) =? 0)%nat eqn:E.
  - apply Nat.eqb_eq, size_empty_inv in E.
    symmetry. apply bool_decide_eq_true_2. set_solver.
  - apply Nat.eqb_neq in E.
    symmetry. apply bool_decide_eq_false_2. intros Hd. apply E.
    apply size_empty_iff. by apply disjoint_intersection.
Qed.

(** Closes [s ∉ X] and [s ∈ X → False] for a literal [s] and a union of
    literal singletons [X]. *)
Ltac symbol_absent :=
  cbn; unfold not; rewrite ?elem_of_union, ?elem_of_singleton;
  intuition discriminate.

Lemma init_unfold T N P :
  __init__ T N P =
    let self := mkCFG T N P (T ∪ N) in
    if bool_decide (T ## N)
    then validate_productions self P;; Ok self
    else Raise (AssertionError Disjointness).
Proof.
  unfold __init__, validate. cbn. rewrite disjoint_size_inter.
  case_bool_decide; cbn; [|done].
  by destruct (validate_productions _ P) as [[]|].
Qed.

Lemma init_ok T N P :
  well_formed T N P → __init__ T N P = Ok (mkCFG T N P (T ∪ N)).
Proof.
  intros [Hd HP]. rewrite init_unfold. cbn.
  rewrite bool_decide_eq_true_2 by done.
  by rewrite validate_productions_ok.
Qed.

Lemma init_inv T N P g :
  __init__ T N P = Ok g → g = mkCFG T N P (T ∪ N) ∧ well_formed T N P.
Proof.
  rewrite init_unfold. cbn. case_bool_decide as Hd; [|done].
  destruct (validate_productions _ P) as [[]|] eqn:E; [|done].
  cbn. intros [= <-]. split; [done|]. split; [done|].
  by apply validate_productions_inv in E.
Qed.

Lemma constructed_inv g :
  constructed g →
  all_symbols g = terminal_symbols g ∪ nonterminal_symbols g
  ∧ well_formed (terminal_symbols g) (nonterminal_symbols g) (productions g).
Proof. intros (T & N & P & H). by apply init_inv in H as [-> ?]. Qed.

(** C6 (as amended).  Construction succeeds on every input that satisfies the
    three invariants, and the grammar it returns has
    [all_symbols = terminals ∪ nonterminals].  It fails with the disjointness
    assertion on any overlap of the two sets.  When the sets are disjoint, it
    fails at the first production, in list order, that breaks an invariant:
    with the left-hand-side assertion if that production's lhs is not a
    nonterminal, and with the right-hand-side assertion otherwise. *)
Theorem init_outcome (T N : gset string) (P : list production) :
  (well_formed T N P → __init__ T N P = Ok (mkCFG T N P (T ∪ N)))
  ∧ (¬ T ## N → __init__ T N P = Raise (AssertionError Disjointness))
  ∧ (∀ good p rest,
       T ## N → P = (good ++ p :: rest)%list → Forall (production_ok T N) good →
       p.1 ∉ N →
       __init__ T N P = Raise (AssertionError (InvalidLhs p)))
  ∧ (∀ good p rest,
       T ## N → P = (good ++ p :: rest)%list → Forall (production_ok T N) good →
       p.1 ∈ N → ¬ Forall (λ s, s ∈ T ∪ N) p.2 →
       __init__ T N P = Raise (AssertionError (InvalidRhsSymbol p))).
Proof.
  split; [apply init_ok|].
  split.
  { intros Hd. rewrite init_unfold. cbn. by rewrite bool_decide_eq_false_2. }
  split.
  - intros good p rest Hd -> Hgood Hl. rewrite init_unfold. cbn.
    rewrite bool_decide_eq_true_2 by done.
    rewrite (validate_productions_first_bad _ good p rest).
    + cbn. by rewrite bool_decide_eq_false_2.
    + exact Hgood.
    + by intros [? _].
  - intros good p rest Hd -> Hgood Hl Hr. rewrite init_unfold. cbn.
    rewrite bool_decide_eq_true_2 by done.
    rewrite (validate_productions_first_bad _ good p rest).
    + cbn. by rewrite bool_decide_eq_true_2.
    + exact Hgood.
    + by intros [_ ?].
Qed.

(** The four cases of [init_outcome] at concrete inputs. *)
Lemma init_outcome_witness :
  __init__ {["a"]} {["S"]} [("S", ["a"])] = Ok g_Sa
  ∧ __init__ {["x"]} {["x"]} [] = Raise (AssertionError Disjointness)
  ∧ __init__ {["a"]} {["S"]} [("S", ["a"]); ("a", ["S"])]
      = Raise (AssertionError (InvalidLhs ("a", ["S"])))
  ∧ __init__ {["a"]} {["S"]} [("S", ["a"]); ("S", ["b"])]
      = Raise (AssertionError (InvalidRhsSymbol ("S", ["b"]))).
Proof.
  split.
  { apply (init_outcome {["a"]} {["S"]} [("S", ["a"])]).
    split; [set_solver|]. repeat constructor; set_solver. }
  split.
  { apply (init_outcome {["x"]} {["x"]} []). set_solver. }
  split.
  - apply (init_outcome {["a"]} {["S"]} [("S", ["a"]); ("a", ["S"])])
      with (good := [("S", ["a"])]) (rest := []).
    + set_solver.
    + reflexivity.
    + repeat constructor; set_solver.
    + set_solver.
  - apply (init_outcome {["a"]} {["S"]} [("S", ["a"]); ("S", ["b"])])
      with (good := [("S", ["a"])]) (rest := []).
    + set_solver.
    + reflexivity.
    + repeat constructor; set_solver.
    + set_solver.
    + intros H. apply Forall_cons_1 in H as [H _]. revert H. symbol_absent.
Defined.

(** C6 as stated fails: the production list below has a right-hand-side
    symbol outside the union (and a left-hand side that is not a nonterminal),
    yet the constructor does not fail with the right-hand-side assertion: the
    left-hand side is checked first. *)
Lemma init_rhs_error_shadowed :
  let T : gset string := {["a"]} in
  let N : gset string := {["S"]} in
  let P : list production := [("x", ["y"])] in
  (∃ p s, p ∈ P ∧ s ∈ p.2 ∧ s ∉ T ∪ N)
  ∧ __init__ T N P = Raise (AssertionError (InvalidLhs ("x", ["y"])))
  ∧ ∀ p, __init__ T N P ≠ Raise (AssertionError (InvalidRhsSymbol p)).
Proof.
  cbn zeta.
  assert (__init__ {["a"]} {["S"]} [("x", ["y"])]
          = Raise (AssertionError (InvalidLhs ("x", ["y"])))) as E.
  { rewrite init_unfold. cbn. rewrite bool_decide_eq_true_2 by set_solver.
    cbn. by rewrite bool_decide_eq_false_2 by symbol_absent. }
  split; [|split].
  - exists ("x", ["y"]), "y".
    split; [by left|]. split; [by left|]. symbol_absent.
  - exact E.
  - intros p. by rewrite E.
Qed.

(** ** Production lookup *)

Lemma productions_with_lhs_filter symbol ps :
  productions_with_lhs symbol ps = filter (λ p, p.1 = symbol) ps.
Proof.
  induction ps as [|p ps IH]; [done|].
  rewrite filter_cons. cbn [productions_with_lhs]. rewrite IH.
  destruct (String.eqb p.1 symbol) eqn:E.
  - apply String.eqb_eq in E. by rewrite decide_True.
  - apply String.eqb_neq in E. by rewrite decide_False.
Qed.

Lemma productions_with_lhs_sublist symbol ps :
  sublist (productions_with_lhs symbol ps) ps.
Proof. rewrite productions_with_lhs_filter. apply sublist_filter. Qed.

Lemma elem_of_productions_with_lhs symbol ps p :
  p ∈ productions_with_lhs symbol ps ↔ p ∈ ps ∧ p.1 = symbol.
Proof.
  rewrite productions_with_lhs_filter, list_elem_of_filter. tauto.
Qed.

Lemma productions_with_lhs_nil symbol ps :
  (∀ p, p ∈ ps → p.1 ≠ symbol) → productions_with_lhs symbol ps = [].
Proof.
  intros Hno. destruct (productions_with_lhs symbol ps) as [|p l] eqn:E; [done|].
  assert (p ∈ productions_with_lhs symbol ps) as Hp by (rewrite E; left).
  apply elem_of_productions_with_lhs in Hp as [Hp Hl]. by apply Hno in Hp.
Qed.

Lemma get_productions_known self symbol :
  symbol ∈ all_symbols self →
  get_productions_for_symbol self symbol
    = Ok (productions_with_lhs symbol (productions self)).
Proof.
  intros H. unfold get_productions_for_symbol.
  by rewrite bool_decide_eq_true_2.
Qed.

Lemma get_productions_unknown self symbol :
  symbol ∉ all_symbols self →
  get_productions_for_symbol self symbol
    = Raise (AssertionError (UnknownSymbol symbol)).
Proof.
  intros H. unfold get_productions_for_symbol.
  by rewrite bool_decide_eq_false_2.
Qed.

(** In a constructed grammar no production has a terminal on its left. *)
Lemma constructed_terminal_no_rule g symbol p :
  constructed g → symbol ∈ terminal_symbols g → p ∈ productions g →
  p.1 ≠ symbol.
Proof.
  intros Hg Ht Hp E. rewrite <- E in Ht.
  apply constructed_inv in Hg as [_ [Hd HP]].
  rewrite Forall_forall in HP. destruct (HP p Hp) as [Hl _].
  by apply (Hd p.1).
Qed.

(** C8.  In a constructed grammar, [get_productions_for_symbol] raises exactly
    when the symbol is not in [all_symbols], and then it is the unknown-symbol
    assertion; for a symbol of [all_symbols] it returns the productions whose
    lhs is that symbol, in the order of the grammar's production list (it is
    the filter of that list, hence a subsequence of it with exactly those
    members), and the result is the empty list when the symbol is a terminal
    or no production has it as lhs. *)
Theorem get_productions_for_symbol_spec (g : CFG) (symbol : string) :
  constructed g →
  (is_ok (get_productions_for_symbol g symbol) = false
     ↔ symbol ∉ all_symbols g)
  ∧ (symbol ∉ all_symbols g →
     get_productions_for_symbol g symbol
       = Raise (AssertionError (UnknownSymbol symbol)))
  ∧ (symbol ∈ all_symbols g →
     ∃ found,
       get_productions_for_symbol g symbol = Ok found
       ∧ found = filter (λ p, p.1 = symbol) (productions g)
       ∧ sublist found (productions g)
       ∧ (∀ p, p ∈ found ↔ p ∈ productions g ∧ p.1 = symbol)
       ∧ (symbol ∈ terminal_symbols g
          ∨ (∀ p, p ∈ productions g → p.1 ≠ symbol) → found = [])).
Proof.
  intros Hg. split; [|split].
  - destruct (decide (symbol ∈ all_symbols g)) as [Hs|Hs].
    + rewrite get_productions_known by done. cbn. split; [done|tauto].
    + rewrite get_productions_unknown by done. cbn. tauto.
  - apply get_productions_unknown.
  - intros Hs. exists (productions_with_lhs symbol (productions g)).
    split; [by apply get_productions_known|].
    split; [apply productions_with_lhs_filter|].
    split; [apply productions_with_lhs_sublist|].
    split; [apply elem_of_productions_with_lhs|].
    intros [Ht|Hno]; apply productions_with_lhs_nil; [|done].
    intros p Hp. by apply (constructed_terminal_no_rule g).
Qed.

(** [get_productions_for_symbol_spec] on the grammar [S -> a]: the terminal
    ["a"] has no productions, and looking it up is not an error. *)
Lemma get_productions_for_symbol_spec_witness :
  constructed g_Sa
  ∧ get_productions_for_symbol g_Sa "a" = Ok []
  ∧ get_productions_for_symbol g_Sa "b"
      = Raise (AssertionError (UnknownSymbol "b")).
Proof.
  assert (constructed g_Sa) as Hg.
  { exists {["a"]}, {["S"]}, [("S", ["a"])]. apply init_ok.
    split; [set_solver|]. repeat constructor; set_solver. }
  split; [exact Hg|].
  destruct (get_productions_for_symbol_spec g_Sa "a" Hg) as (_ & _ & Hin).
  destruct (get_productions_for_symbol_spec g_Sa "b" Hg) as (_ & Hout & _).
  split.
  - destruct Hin as (found & E & _ & _ & _ & Hnil); [set_solver|].
    rewrite E. f_equal. apply Hnil. left. set_solver.
  - apply Hout. symbol_absent.
Defined.

(** ** The random walk *)

Lemma choice_elem {A} (a : list A) rs :
  a ≠ [] → ∃ x, x ∈ a ∧ choice a rs = (Ok x, advance rs).
Proof.
  destruct a as [|x a]; [done|]. intros _.
  eexists. split; [|reflexivity].
  apply list_elem_of_In, nth_In, Nat.mod_upper_bound. done.
Qed.

Lemma choice_empty {A} rs :
  ∃ msg, choice (@nil A) rs = (Raise (ValueError msg), rs).
Proof. by eexists. Qed.

Lemma choice_range n rs :
  (0 < n)%nat → ∃ i, (i < n)%nat ∧ choice (seq 0 n) rs = (Ok i, advance rs).
Proof.
  intros Hn. destruct (choice_elem (seq 0 n) rs) as (i & Hi & E).
  { destruct n; [lia|done]. }
  exists i. split; [|done]. apply elem_of_seq in Hi. lia.
Qed.

Lemma py_index_lt {A} (l : list A) i :
  (i < length l)%nat → ∃ x, x ∈ l ∧ py_index l i = Ok x.
Proof.
  intros Hi. destruct (lookup_lt_is_Some_2 l i Hi) as [x Hx].
  exists x. split; [by eapply list_elem_of_lookup_2|].
  unfold py_index. by rewrite Hx.
Qed.

(** The three assertions at the head of [generate]. *)
Lemma generate_unfold self symbol max_length strategy rs :
  symbol ∈ nonterminal_symbols self →
  strategy = "uniform" ∨ strategy = "weighted" →
  (0 < max_length)%Z →
  generate self symbol max_length strategy rs =
    if (max_length =? 1)%Z then (Ok symbol, rs)
    else generate_loop self strategy (Z.to_nat (max_length - 1))
           (mkLoop symbol symbol None) rs.
Proof.
  intros Hs Hst Hm. unfold generate.
  rewrite bool_decide_eq_true_2 by done.
  replace (String.eqb strategy "uniform" || String.eqb strategy "weighted")
    with true by (by destruct Hst as [-> | ->]).
  replace (0 <? max_length)%Z with true by (symmetry; by apply Z.ltb_lt).
  cbn. by destruct (max_length =? 1)%Z.
Qed.

(** C9.  In a constructed grammar, for a nonterminal start symbol and either
    accepted sampling strategy, [generate] with [max_length = 1] returns the
    start symbol itself and leaves the random source as it found it: no draw
    is made. *)
Theorem generate_max_length_one (g : CFG) (start strategy : string)
    (rs : RandomState) :
  constructed g →
  start ∈ nonterminal_symbols g →
  strategy = "uniform" ∨ strategy = "weighted" →
  generate g start 1 strategy rs = (Ok start, rs).
Proof.
  intros _ Hs Hst. by rewrite generate_unfold.
Qed.

Ltac prove_constructed :=
  eexists _, _, _; apply init_ok;
  split; [set_solver | repeat constructor; set_solver].

Lemma g_Sa_constructed : constructed g_Sa.
Proof. prove_constructed. Qed.

Lemma g_S_constructed : constructed g_S.
Proof. prove_constructed. Qed.

Lemma g_Sab_constructed : constructed g_Sab.
Proof. prove_constructed. Qed.

Lemma g_Sabc_constructed : constructed g_Sabc.
Proof. prove_constructed. Qed.

Lemma g_Seps_constructed : constructed g_Seps.
Proof. prove_constructed. Qed.

(** [generate_max_length_one] on the grammar [S -> a]. *)
Lemma generate_max_length_one_witness :
  generate g_Sa "S" 1 "uniform" (mkRandomState (λ _, 0%nat) 0)
    = (Ok "S", mkRandomState (λ _, 0%nat) 0).
Proof.
  apply (generate_max_length_one g_Sa "S" "uniform").
  - exists {["a"]}, {["S"]}, [("S", ["a"])]. vm_compute. reflexivity.
  - vm_compute. reflexivity.
  - left. reflexivity.
Defined.

(** The walk on [S -> a] makes one step whatever the source yields: one draw
    for the production, one for the symbol of its right-hand side. *)
Lemma generate_g_Sa rs :
  generate g_Sa "S" 5 "uniform" rs = (Ok "S a", advance (advance rs)).
Proof. destruct rs as [d c]. vm_compute. reflexivity. Qed.

Lemma generate_g_S rs : generate g_S "S" 5 "uniform" rs = (Ok "S", rs).
Proof. destruct rs as [d c]. vm_compute. reflexivity. Qed.

(** C7.  The constructor accepts terminals [{a}], nonterminals [{S}],
    productions [[(S, [a])]], and on that grammar [generate("S", 5)] returns
    ["S a"] for every state of the random source, after a single step of the
    walk (two draws), a string of two tokens.  The constructor accepts no
    terminals, nonterminals [{S}], no productions, and on that grammar
    [generate("S", 5)] returns ["S"] without drawing. *)
Theorem generate_scenarios :
  __init__ {["a"]} {["S"]} [("S", ["a"])] = Ok g_Sa
  ∧ (∀ rs, generate g_Sa "S" 5 "uniform" rs
           = (Ok "S a", advance (advance rs)))
  ∧ split "S a" = ["S"; "a"]
  ∧ __init__ ∅ {["S"]} [] = Ok g_S
  ∧ (∀ rs, generate g_S "S" 5 "uniform" rs = (Ok "S", rs)).
Proof.
  split; [by vm_compute|].
  split; [apply generate_g_Sa|].
  split; [done|].
  split; [by vm_compute|].
  apply generate_g_S.
Qed.

(** The unassigned local of the non-uniform branch. *)
Lemma generate_weighted_g_Sa rs :
  generate g_Sa "S" 5 "weighted" rs
    = (Raise (UnboundLocalError "sampled_output"), rs).
Proof. destruct rs as [d c]. vm_compute. reflexivity. Qed.

(** An empty right-hand side passes validation and stops the sampler. *)
Lemma generate_g_Seps rs :
  ∃ msg, generate g_Seps "S" 2 "uniform" rs
           = (Raise (ValueError msg), advance rs).
Proof. destruct rs as [d c]. eexists. vm_compute. reflexivity. Qed.

(** C1 (the code departs from it).  On the constructed grammar [S -> a], with
    a nonterminal start symbol, [max_length = 5 > 0] and the accepted strategy
    ["weighted"], [generate] raises [UnboundLocalError] for every state of the
    random source.  On the constructed grammar whose only production is
    [S -> ] (empty right-hand side), the uniform strategy raises
    [ValueError] from the sampler. *)
Theorem generate_raises_on_accepted_input :
  constructed g_Sa
  ∧ "S" ∈ nonterminal_symbols g_Sa
  ∧ (∀ rs, generate g_Sa "S" 5 "weighted" rs
           = (Raise (UnboundLocalError "sampled_output"), rs))
  ∧ constructed g_Seps
  ∧ "S" ∈ nonterminal_symbols g_Seps
  ∧ (∀ rs, ∃ msg, generate g_Seps "S" 2 "uniform" rs
                  = (Raise (ValueError msg), advance rs)).
Proof.
  split; [apply g_Sa_constructed|].
  split; [by vm_compute|].
  split; [apply generate_weighted_g_Sa|].
  split; [apply g_Seps_constructed|].
  split; [by vm_compute|].
  apply generate_g_Seps.
Qed.

Lemma generate_g_Sab rs :
  generate g_Sab "S" 2 "uniform" rs = (Ok "S a b", advance (advance rs)).
Proof. destruct rs as [d c]. vm_compute. reflexivity. Qed.

Lemma generate_g_Sabc rs :
  generate g_Sabc "S" 2 "uniform" rs = (Ok "S a b c", advance (advance rs)).
Proof. destruct rs as [d c]. vm_compute. reflexivity. Qed.

(** C3 (the code departs from it).  On the constructed grammar [S -> ab] the
    walk from [S] with [max_length = 2] visits [S] and then [ab], yet the
    returned string is ["S a b"], not the visited symbols joined by a space
    (["S ab"]): the appended symbol is itself joined character by
    character. *)
Theorem generate_splits_appended_symbol :
  constructed g_Sab
  ∧ (∀ rs, fst (generate g_Sab "S" 2 "uniform" rs) = Ok "S a b")
  ∧ py_join " " ["S"; "ab"] = "S ab"
  ∧ "S a b" ≠ py_join " " ["S"; "ab"].
Proof.
  split; [apply g_Sab_constructed|].
  split; [intros rs; by rewrite generate_g_Sab|].
  split; [done|]. by cbn.
Qed.

(** C4 (the code departs from it).  On the constructed grammar [S -> abc],
    [generate] from [S] with [max_length = 2] returns ["S a b c"], whose
    whitespace-tokenized length is 4. *)
Theorem generate_exceeds_max_length :
  constructed g_Sabc
  ∧ (∀ rs, fst (generate g_Sabc "S" 2 "uniform" rs) = Ok "S a b c")
  ∧ length (split "S a b c") = 4%nat
  ∧ (2 < Z.of_nat (length (split "S a b c")))%Z.
Proof.
  split; [apply g_Sabc_constructed|].
  split; [intros rs; by rewrite generate_g_Sabc|].
  split; [done|]. by cbn.
Qed.

(** ** Equality and hashing *)

Lemma py_eq_PList l m : py_eq (PList l) (PList m) = items_eq l m.
Proof. reflexivity. Qed.

Lemma py_eq_PTuple l m : py_eq (PTuple l) (PTuple m) = items_eq l m.
Proof. reflexivity. Qed.

Lemma items_eq_cons x l y m :
  items_eq (x :: l) (y :: m) = py_eq x y && items_eq l m.
Proof. reflexivity. Qed.

Lemma items_eq_strs (l m : list string) :
  items_eq (PStr <$> l) (PStr <$> m) = bool_decide (l = m).
Proof.
  revert m. induction l as [|s l IH]; intros [|t m]; try done.
  rewrite !fmap_cons, items_eq_cons, IH. cbn [py_eq].
  destruct (String.eqb s t) eqn:E.
  - apply String.eqb_eq in E as ->. cbn.
    apply bool_decide_ext. split; [by intros ->|by intros [= ->]].
  - apply String.eqb_neq in E. cbn. symmetry.
    apply bool_decide_eq_false_2. by intros [= ? ?].
Qed.

Lemma py_eq_of_production (p q : production) :
  py_eq (of_production p) (of_production q) = bool_decide (p = q).
Proof.
  destruct p as [pl pr], q as [ql qr]. unfold of_production. cbn [fst snd].
  rewrite py_eq_PTuple, !items_eq_cons, py_eq_PList, items_eq_strs.
  cbn [py_eq items_eq]. rewrite andb_true_r.
  destruct (String.eqb pl ql) eqn:E.
  - apply String.eqb_eq in E as ->. cbn.
    apply bool_decide_ext. split; [by intros ->|by intros [= ->]].
  - apply String.eqb_neq in E. cbn. symmetry.
    apply bool_decide_eq_false_2. by intros [= ? ?].
Qed.

Lemma py_eq_of_productions (P Q : list production) :
  py_eq (of_productions P) (of_productions Q) = bool_decide (P = Q).
Proof.
  unfold of_productions. rewrite py_eq_PList.
  revert Q. induction P as [|p P IH]; intros [|q Q]; try done.
  rewrite !fmap_cons, items_eq_cons, IH, py_eq_of_production.
  do 2 case_bool_decide; cbn; symmetry.
  - apply bool_decide_eq_true_2. congruence.
  - apply bool_decide_eq_false_2. congruence.
  - apply bool_decide_eq_false_2. congruence.
  - apply bool_decide_eq_false_2. congruence.
Qed.

(** [__eq__] compares the two symbol sets and the production list. *)
Lemma eq_iff (g1 g2 : CFG) :
  __eq__ g1 g2 = true
  ↔ terminal_symbols g1 = terminal_symbols g2
    ∧ nonterminal_symbols g1 = nonterminal_symbols g2
    ∧ productions g1 = productions g2.
Proof.
  unfold __eq__. rewrite py_eq_of_productions. cbn [py_eq].
  rewrite !andb_true_iff, !bool_decide_eq_true. tauto.
Qed.

(** [__hash__] fails on the first item of the triple, for every grammar. *)
Lemma hash_raises str_hash tuple_mix (g : CFG) :
  __hash__ str_hash tuple_mix g = Raise (TypeError "unhashable type: 'set'").
Proof. reflexivity. Qed.

(** C5 (the code departs from it).  [__eq__] returns [True] exactly when the
    terminal sets, the nonterminal sets and the production lists are equal,
    as claimed.  [__hash__] however does not return on any grammar: whatever
    the string hash and the tuple mixing are, hashing the triple raises
    [TypeError], the first item being a [set]; so it does on the constructed
    grammar [S -> a]. *)
Theorem eq_holds_hash_raises :
  (∀ g1 g2 : CFG,
     __eq__ g1 g2 = true
     ↔ terminal_symbols g1 = terminal_symbols g2
       ∧ nonterminal_symbols g1 = nonterminal_symbols g2
       ∧ productions g1 = productions g2)
  ∧ (∀ str_hash tuple_mix (g : CFG),
       __hash__ str_hash tuple_mix g
         = Raise (TypeError "unhashable type: 'set'"))
  ∧ constructed g_Sa
  ∧ (∀ str_hash tuple_mix, is_ok (__hash__ str_hash tuple_mix g_Sa) = false).
Proof.
  split; [apply eq_iff|].
  split; [apply hash_raises|].
  split; [apply g_Sa_constructed|].
  intros. by rewrite hash_raises.
Qed.

(** ** Membership queries *)

(** A pair of strings never equals a stored production: its second item is a
    string, the stored one a list. *)
Lemma py_eq_production_pair (p : production) (x y : string) :
  py_eq (of_production p) (PTuple [PStr x; PStr y]) = false.
Proof.
  unfold of_production. rewrite py_eq_PTuple, !items_eq_cons.
  cbn [py_eq]. by rewrite andb_false_r.
Qed.

Lemma is_valid_production_pair (g : CFG) (x y : string) :
  is_valid_production g (PTuple [PStr x; PStr y]) = false.
Proof.
  unfold is_valid_production, py_in.
  induction (productions g) as [|p ps IH]; [done|].
  rewrite fmap_cons. cbn [existsb].
  by rewrite py_eq_production_pair, IH.
Qed.

Lemma adjacent_pairs_valid_false g tokens i n :
  (i + 1 < length tokens)%nat →
  adjacent_pairs_valid g tokens i (S n) = Ok false.
Proof.
  intros Hi. cbn [adjacent_pairs_valid].
  destruct (py_index_lt tokens i) as (a & _ & ->); [lia|].
  destruct (py_index_lt tokens (i + 1)) as (b & _ & ->); [lia|].
  cbn. by rewrite is_valid_production_pair.
Qed.

Lemma is_valid_string_two_tokens (g : CFG) (s : string) :
  (2 ≤ length (split s))%nat → is_valid_string g s = Ok false.
Proof.
  intros Hlen. unfold is_valid_string.
  destruct (all_tokens_known g (split s)); [|done]. cbn [negb].
  replace (Z.to_nat (Z.of_nat (length (split s)) - 1))
    with (S (length (split s) - 2)) by lia.
  apply adjacent_pairs_valid_false. lia.
Qed.

(** C10.  In a constructed grammar, [is_valid_production] is false on every
    pair of strings, and therefore [is_valid_string] returns [False] on every
    string of two or more whitespace-separated tokens, whether or not the
    tokens are symbols of the grammar. *)
Theorem is_valid_string_rejects_pairs (g : CFG) :
  constructed g →
  (∀ x y, is_valid_production g (PTuple [PStr x; PStr y]) = false)
  ∧ (∀ s, (2 ≤ length (split s))%nat → is_valid_string g s = Ok false).
Proof.
  intros _. split.
  - apply is_valid_production_pair.
  - apply is_valid_string_two_tokens.
Qed.

(** [is_valid_string_rejects_pairs] on [S -> a] and the string ["a S a"],
    all of whose tokens are symbols. *)
Lemma is_valid_string_rejects_pairs_witness :
  all_tokens_known g_Sa (split "a S a") = true
  ∧ is_valid_string g_Sa "a S a" = Ok false.
Proof.
  split; [vm_compute; reflexivity|].
  apply (is_valid_string_rejects_pairs g_Sa).
  - exists {["a"]}, {["S"]}, [("S", ["a"])]. vm_compute. reflexivity.
  - vm_compute. lia.
Defined.

(** C2 (the code departs from it).  On the constructed grammar [S -> a],
    [is_valid_string("S a")] returns [False], although both tokens are symbols
    and [(S, [a])] is a production; [is_valid_string("S b")] returns [False]
    as claimed, ["b"] being no symbol. *)
Theorem is_valid_string_scenario :
  __init__ {["a"]} {["S"]} [("S", ["a"])] = Ok g_Sa
  ∧ all_tokens_known g_Sa (split "S a") = true
  ∧ is_valid_string g_Sa "S a" = Ok false
  ∧ all_tokens_known g_Sa (split "S b") = false
  ∧ is_valid_string g_Sa "S b" = Ok false.
Proof. repeat split; vm_compute; reflexivity. Qed.

(** ** The walk under the uniform strategy *)

Lemma append_String c s t : String c s ++ t = String c (s ++ t).
Proof. reflexivity. Qed.

Lemma append_empty_r s : s ++ "" = s.
Proof. induction s as [|c s IH]; [done|]. by rewrite append_String, IH. Qed.

Lemma append_assoc s t u : (s ++ t) ++ u = s ++ t ++ u.
Proof.
  induction s as [|c s IH]; [done|]. by rewrite !append_String, IH.
Qed.

(** One iteration of the loop, when the current symbol has productions. *)
Lemma generate_loop_step g n st rs found i p so :
  get_productions_for_symbol g (current_symbol st) = Ok found →
  found ≠ [] →
  choice (seq 0 (length found)) rs = (Ok i, advance rs) →
  py_index found i = Ok p →
  choice p.2 (advance rs) = (Ok so, advance (advance rs)) →
  generate_loop g "uniform" (S n) st rs =
    if bool_decide (so ∈ terminal_symbols g)
    then (Ok (generated_string st ++ step_text so), advance (advance rs))
    else generate_loop g "uniform" n
           (mkLoop (generated_string st ++ step_text so) so (Some so))
           (advance (advance rs)).
Proof.
  intros Hfound Hne Hi Hp Hso. cbn [generate_loop].
  unfold mbind, Gen_bind, lift. rewrite Hfound.
  destruct found as [|q found]; [done|].
  cbn [length Nat.eqb String.eqb Ascii.eqb Bool.eqb].
  cbn [length] in Hi. unfold production in *. rewrite Hi, Hp, Hso.
  unfold read_local, mret, Gen_ret, step_text. by case_bool_decide.
Qed.





(** *** Grammars whose symbols are single characters *)

Lemma step_text_single s :
  String.length s = 1%nat → step_text s = " " ++ s.
Proof. by destruct s as [|c [|d s]]. Qed.

Lemma py_join_walk_text x rest :
  Forall (λ s, String.length s = 1%nat) rest →
  py_join " " (x :: rest) = x ++ walk_text rest.
Proof.
  intros Hrest. revert x.
  induction Hrest as [|y rest Hy _ IH]; intros x.
  - cbn. by rewrite append_empty_r.
  - change (py_join " " (x :: y :: rest))
      with (x ++ " " ++ py_join " " (y :: rest)).
    rewrite IH. cbn [walk_text]. rewrite step_text_single by done.
    by rewrite (append_assoc " " y).
Qed.








(** * Further properties of the code *)

(** ** Validation and the symbol predicates *)



Lemma Forall_first_bad {A} (Q : A → Prop) `{!∀ x, Decision (Q x)}
    (l : list A) :
  ¬ Forall Q l →
  ∃ good x rest, l = (good ++ x :: rest)%list ∧ Forall Q good ∧ ¬ Q x.
Proof.
  induction l as [|y l IH]; intros Hbad.
  - destruct Hbad. constructor.
  - destruct (decide (Q y)) as [Hy|Hy].
    + destruct IH as (good & x & rest & -> & Hgood & Hx).
      { intros Hl. apply Hbad. by constructor. }
      exists (y :: good), x, rest. repeat split; [by constructor|done].
    + exists [], y, l. repeat split; [constructor|done].
Qed.

#[local] Instance stored_ok_dec self p : Decision (stored_ok self p).
Proof. unfold stored_ok. apply _. Defined.

(** The constructor returns exactly on the inputs that satisfy the three
    invariants; the object it returns stores the three arguments and their
    union, and every failure is one of the three assertions of [validate]. *)
Theorem init_returns_iff (T N : gset string) (P : list production) :
  (∀ g, __init__ T N P = Ok g
        ↔ well_formed T N P ∧ g = mkCFG T N P (T ∪ N))
  ∧ (∀ e, __init__ T N P = Raise e →
          ¬ well_formed T N P
          ∧ (e = AssertionError Disjointness
             ∨ ∃ p, p ∈ P ∧ (e = AssertionError (InvalidLhs p)
                             ∨ e = AssertionError (InvalidRhsSymbol p)))).
Proof.
  split.
  - intros g. split.
    + intros H. by apply init_inv in H as [-> ?].
    + intros [Hwf ->]. by apply init_ok.
  - intros e He. split.
    { intros Hwf. apply init_ok in Hwf. congruence. }
    rewrite init_unfold in He. cbn in He.
    case_bool_decide as Hd; [|left; congruence]. right.
    set (self := mkCFG T N P (T ∪ N)) in *.
    destruct (decide (Forall (stored_ok self) P)) as [Hok|Hbad].
    { by rewrite validate_productions_ok in He. }
    apply Forall_first_bad in Hbad as (good & p & rest & -> & Hgood & Hp);
      [|apply _].
    rewrite (validate_productions_first_bad self good p rest) in He by done.
    exists p. split; [apply elem_of_app; right; left|].
    cbn in He. case_bool_decide; [right|left]; congruence.
Qed.

Lemma init_returns_iff_witness :
  well_formed {["a"]} {["S"]} [("S", ["a"])]
  ∧ ¬ well_formed {["x"]} {["x"]} [].
Proof.
  split.
  - destruct (init_returns_iff {["a"]} {["S"]} [("S", ["a"])]) as [H _].
    apply (H g_Sa). vm_compute. reflexivity.
  - destruct (init_returns_iff {["x"]} {["x"]} []) as [_ H].
    apply (H (AssertionError Disjointness)). vm_compute. reflexivity.
Defined.

(** In a constructed grammar no symbol is both terminal and nonterminal, and
    the symbols of [all_symbols] are those for which [is_terminal] or
    [is_nonterminal] answers [True]. *)
Theorem symbol_kinds (g : CFG) (symbol : string) :
  constructed g →
  is_terminal g symbol && is_nonterminal g symbol = false
  ∧ bool_decide (symbol ∈ all_symbols g)
    = is_terminal g symbol || is_nonterminal g symbol.
Proof.
  intros Hg. destruct (constructed_inv g Hg) as [Hall [Hd _]].
  unfold is_terminal, is_nonterminal. rewrite Hall. split.
  - do 2 case_bool_decide; try done. by destruct (Hd symbol).
  - rewrite <- bool_decide_or. apply bool_decide_ext, elem_of_union.
Qed.

Lemma symbol_kinds_witness :
  is_terminal g_Sa "a" && is_nonterminal g_Sa "a" = false
  ∧ bool_decide ("a" ∈ all_symbols g_Sa)
    = is_terminal g_Sa "a" || is_nonterminal g_Sa "a".
Proof.
  apply (symbol_kinds g_Sa "a").
  exists {["a"]}, {["S"]}, [("S", ["a"])]. vm_compute. reflexivity.
Defined.

(** ** The argument checks of [generate] *)

(** [generate] checks the start symbol, then the strategy, then the length;
    the first check that fails raises its assertion, and no random number has
    been drawn at that point. *)
Theorem generate_argument_errors (self : CFG) (symbol strategy : string)
    (max_length : Z) (rs : RandomState) :
  (symbol ∉ nonterminal_symbols self →
   generate self symbol max_length strategy rs
     = (Raise (AssertionError (NotNonterminal symbol)), rs))
  ∧ (symbol ∈ nonterminal_symbols self →
     strategy ≠ "uniform" → strategy ≠ "weighted" →
     generate self symbol max_length strategy rs
       = (Raise (AssertionError UnsupportedStrategy), rs))
  ∧ (symbol ∈ nonterminal_symbols self →
     strategy = "uniform" ∨ strategy = "weighted" →
     (max_length ≤ 0)%Z →
     generate self symbol max_length strategy rs
       = (Raise (AssertionError InvalidLength), rs)).
Proof.
  unfold generate. split; [|split].
  - intros Hs. by rewrite bool_decide_eq_false_2.
  - intros Hs Hu Hw. rewrite bool_decide_eq_true_2 by done.
    apply String.eqb_neq in Hu, Hw. by rewrite Hu, Hw.
  - intros Hs Hst Hm. rewrite bool_decide_eq_true_2 by done.
    replace (String.eqb strategy "uniform" || String.eqb strategy "weighted")
      with true by (by destruct Hst as [-> | ->]).
    replace (0 <? max_length)%Z with false by (symmetry; by apply Z.ltb_ge).
    done.
Qed.

Lemma generate_argument_errors_witness :
  generate g_Sa "a" 5 "uniform" (mkRandomState (λ _, 0%nat) 0)
    = (Raise (AssertionError (NotNonterminal "a")),
       mkRandomState (λ _, 0%nat) 0)
  ∧ generate g_Sa "S" 5 "greedy" (mkRandomState (λ _, 0%nat) 0)
    = (Raise (AssertionError UnsupportedStrategy),
       mkRandomState (λ _, 0%nat) 0)
  ∧ generate g_Sa "S" 0 "weighted" (mkRandomState (λ _, 0%nat) 0)
    = (Raise (AssertionError InvalidLength), mkRandomState (λ _, 0%nat) 0).
Proof.
  split; [|split].
  - apply (generate_argument_errors g_Sa "a" "uniform" 5). symbol_absent.
  - apply (generate_argument_errors g_Sa "S" "greedy" 5).
    + vm_compute. reflexivity.
    + discriminate.
    + discriminate.
  - apply (generate_argument_errors g_Sa "S" "weighted" 0).
    + vm_compute. reflexivity.
    + right. reflexivity.
    + lia.
Defined.

(** ** Every outcome of the uniform walk *)

Lemma last_default {A} (l : list A) (a x y : A) :
  List.last (a :: l) x = List.last (a :: l) y.
Proof.
  revert a. induction l as [|b l IH]; intros a; [done|].
  change (List.last (b :: l) x = List.last (b :: l) y). apply IH.
Qed.

Lemma last_visited_cons x y rest :
  last_visited x (y :: rest) = last_visited y rest.
Proof.
  unfold last_visited. destruct rest as [|z rest]; [done|].
  change (List.last (z :: rest) x = List.last (z :: rest) y).
  apply last_default.
Qed.

(** An iteration that picks a production with an empty right-hand side. *)
Lemma generate_loop_step_empty g n st rs found i p :
  get_productions_for_symbol g (current_symbol st) = Ok found →
  found ≠ [] →
  choice (seq 0 (length found)) rs = (Ok i, advance rs) →
  py_index found i = Ok p →
  p.2 = [] →
  ∃ msg,
    generate_loop g "uniform" (S n) st rs
      = (Raise (ValueError msg), advance rs).
Proof.
  intros Hfound Hne Hi Hp Hrhs. eexists. cbn [generate_loop].
  unfold mbind, Gen_bind, lift. rewrite Hfound.
  destruct found as [|q found]; [done|].
  cbn [length Nat.eqb String.eqb Ascii.eqb Bool.eqb].
  cbn [length] in Hi. unfold production in *. rewrite Hi, Hp, Hrhs.
  reflexivity.
Qed.

(** The loop under the uniform strategy on any constructed grammar: it
    either returns, and then it stopped on a symbol without productions or
    used all its iterations, or it raises [ValueError], and then the symbol
    it stood on has a production with an empty right-hand side. *)
Lemma generate_loop_uniform_outcome g n st rs :
  constructed g → current_symbol st ∈ all_symbols g →
  ∃ rest rs',
    (length rest ≤ n)%nat
    ∧ chain g (current_symbol st) rest
    ∧ ((generate_loop g "uniform" n st rs
          = (Ok (generated_string st ++ walk_text rest), rs')
        ∧ consumed rs' = (consumed rs + 2 * length rest)%nat
        ∧ (productions_with_lhs (last_visited (current_symbol st) rest)
                                (productions g) = []
           ∨ length rest = n))
       ∨ (∃ msg p,
            generate_loop g "uniform" n st rs = (Raise (ValueError msg), rs')
            ∧ consumed rs' = (consumed rs + 2 * length rest + 1)%nat
            ∧ p ∈ productions g
            ∧ p.1 = last_visited (current_symbol st) rest
            ∧ p.2 = [])).
Proof.
  intros Hg. destruct (constructed_inv g Hg) as [Hall [_ HP]].
  rewrite Forall_forall in HP.
  revert st rs. induction n as [|n IH]; intros st rs Hcur.
  { exists [], rs. split; [done|]. split; [done|]. left.
    cbn. rewrite append_empty_r. repeat split; [lia|by right]. }
  pose proof (get_productions_known g _ Hcur) as Hfound.
  destruct (productions_with_lhs (current_symbol st) (productions g))
    as [|q found] eqn:Efound.
  { exists [], rs. split; [cbn; lia|]. split; [done|]. left.
    cbn [generate_loop]. unfold mbind, Gen_bind, lift.
    rewrite Hfound. cbn. rewrite append_empty_r.
    repeat split; [lia|by left]. }
  destruct (choice_range (length (q :: found)) rs) as (i & Hi & Ei);
    [cbn; lia|].
  destruct (py_index_lt (q :: found) i Hi) as (p & Hp & Ep).
  rewrite <- Efound in Hp.
  apply elem_of_productions_with_lhs in Hp as [Hp Hlhs].
  destruct (decide (p.2 = [])) as [Hempty|Hrhs].
  { destruct (generate_loop_step_empty g n st rs (q :: found) i p)
      as [msg E]; [done..|].
    exists [], (advance rs). split; [cbn; lia|]. split; [done|]. right.
    exists msg, p. cbn. repeat split; [done|lia|done|done|done]. }
  destruct (choice_elem p.2 (advance rs)) as (so & Hso & Eso); [done|].
  assert (so ∈ all_symbols g) as Hso_all.
  { destruct (HP p Hp) as [_ Hr]. rewrite Forall_forall in Hr.
    rewrite Hall. by apply Hr. }
  assert (derives g (current_symbol st) so) as Hder by (by exists p).
  rewrite (generate_loop_step g n st rs (q :: found) i p so) by done.
  case_bool_decide as Hterm.
  - exists [so], (advance (advance rs)). split; [cbn; lia|].
    split; [done|]. left. cbn [walk_text]. rewrite append_empty_r.
    repeat split; [cbn; lia|]. left. apply productions_with_lhs_nil.
    intros r Hr. by apply (constructed_terminal_no_rule g).
  - destruct (IH (mkLoop (generated_string st ++ step_text so) so (Some so))
                 (advance (advance rs)) Hso_all)
      as (rest & rs' & Hlen & Hch & Hout).
    cbn [current_symbol generated_string] in Hch, Hout.
    exists (so :: rest), rs'. split; [cbn; lia|]. split; [done|].
    rewrite last_visited_cons. cbn [walk_text length].
    rewrite <- append_assoc.
    destruct Hout as [(E & Hcons & Hstop)|(msg & r & E & Hcons & Hr)].
    + left. cbn in Hcons. repeat split; [done|lia|].
      destruct Hstop as [?|?]; [by left|right; lia].
    + right. exists msg, r. cbn in Hcons. repeat split; [done|lia|apply Hr..].
Qed.

(** The two branches of [generate] on top of [generate_loop_uniform_outcome]. *)
Lemma generate_uniform_cases (g : CFG) (start : string) (max_length : Z)
    (rs : RandomState) :
  constructed g → start ∈ nonterminal_symbols g → (0 < max_length)%Z →
  ∃ rest rs',
    (Z.of_nat (length (start :: rest)) ≤ max_length)%Z
    ∧ chain g start rest
    ∧ ((generate g start max_length "uniform" rs
          = (Ok (start ++ walk_text rest), rs')
        ∧ consumed rs' = (consumed rs + 2 * length rest)%nat
        ∧ (productions_with_lhs (last_visited start rest) (productions g) = []
           ∨ Z.of_nat (length (start :: rest)) = max_length))
       ∨ (∃ msg p,
            generate g start max_length "uniform" rs
              = (Raise (ValueError msg), rs')
            ∧ consumed rs' = (consumed rs + 2 * length rest + 1)%nat
            ∧ p ∈ productions g
            ∧ p.1 = last_visited start rest
            ∧ p.2 = [])).
Proof.
  intros Hg Hstart Hmax.
  rewrite generate_unfold by (done || by left).
  destruct (max_length =? 1)%Z eqn:E1.
  - apply Z.eqb_eq in E1. exists [], rs. split; [cbn; lia|].
    split; [done|]. left. cbn. rewrite append_empty_r.
    repeat split; [lia|right; lia].
  - apply Z.eqb_neq in E1.
    destruct (generate_loop_uniform_outcome g (Z.to_nat (max_length - 1))
                (mkLoop start start None) rs Hg)
      as (rest & rs' & Hlen & Hch & Hout).
    { cbn. destruct (constructed_inv g Hg) as [-> _]. set_solver. }
    cbn [current_symbol generated_string] in Hch, Hout.
    exists rest, rs'. split; [cbn; lia|]. split; [done|].
    destruct Hout as [(E & Hcons & Hstop)|Herr].
    + left. repeat split; [done..|].
      destruct Hstop as [?|?]; [by left|right; cbn; lia].
    + by right.
Qed.



(** ** The weighted strategy *)

(** With the strategy ["weighted"], on a constructed grammar, from a
    nonterminal and with a positive length, [generate] draws nothing: it
    returns the start symbol when [max_length] is 1 or the start symbol has
    no production, and raises [UnboundLocalError] in every other case. *)
Theorem generate_weighted_outcome (g : CFG) (start : string) (max_length : Z)
    (rs : RandomState) :
  constructed g → start ∈ nonterminal_symbols g → (0 < max_length)%Z →
  generate g start max_length "weighted" rs
    = (if (max_length =? 1)%Z
          || (length (productions_with_lhs start (productions g)) =? 0)%nat
       then Ok start
       else Raise (UnboundLocalError "sampled_output"), rs).
Proof.
  intros Hg Hstart Hmax.
  rewrite generate_unfold by (done || by right).
  destruct (max_length =? 1)%Z eqn:E1; [done|].
  apply Z.eqb_neq in E1. cbn [orb].
  replace (Z.to_nat (max_length - 1)) with (S (Z.to_nat (max_length - 2)))
    by lia.
  cbn [generate_loop current_symbol]. unfold mbind, Gen_bind, lift.
  rewrite get_productions_known.
  2:{ destruct (constructed_inv g Hg) as [-> _]. set_solver. }
  change (String.eqb "weighted" "uniform") with false.
  destruct (productions_with_lhs start (productions g)); reflexivity.
Qed.

Lemma generate_weighted_outcome_witness :
  generate g_S "S" 5 "weighted" (mkRandomState (λ _, 0%nat) 0)
    = (if (5 =? 1)%Z
          || (length (productions_with_lhs "S" (productions g_S)) =? 0)%nat
       then Ok "S"
       else Raise (UnboundLocalError "sampled_output"),
       mkRandomState (λ _, 0%nat) 0).
Proof.
  apply (generate_weighted_outcome g_S "S" 5).
  - exists ∅, {["S"]}, []. vm_compute. reflexivity.
  - vm_compute. reflexivity.
  - lia.
Defined.

(** ** Equality *)

(** [__eq__] is reflexive, symmetric and transitive. *)
Theorem eq_equivalence :
  (∀ g, __eq__ g g = true)
  ∧ (∀ g h, __eq__ g h = __eq__ h g)
  ∧ (∀ g h k, __eq__ g h = true → __eq__ h k = true → __eq__ g k = true).
Proof.
  split; [|split].
  - intros g. by apply eq_iff.
  - intros g h. apply eq_true_iff_eq. rewrite !eq_iff. intuition congruence.
  - intros g h k. rewrite !eq_iff. intuition congruence.
Qed.

Lemma eq_equivalence_witness : __eq__ g_Sa g_Sa = true.
Proof.
  destruct eq_equivalence as (_ & _ & Htrans).
  apply (Htrans g_Sa g_Sa g_Sa); vm_compute; reflexivity.
Defined.

(** Two grammars returned by the constructor compare equal exactly when they
    agree on every attribute, [all_symbols] included, although [__eq__] does
    not look at [all_symbols]. *)
Theorem eq_constructed (g h : CFG) :
  constructed g → constructed h → (__eq__ g h = true ↔ g = h).
Proof.
  intros Hg Hh. rewrite eq_iff.
  destruct (constructed_inv g Hg) as [Hgall _].
  destruct (constructed_inv h Hh) as [Hhall _].
  split.
  - intros (HT & HN & HP). destruct g, h. cbn in *. congruence.
  - by intros ->.
Qed.

Lemma eq_constructed_witness : __eq__ g_Sa g_S = true ↔ g_Sa = g_S.
Proof.
  apply (eq_constructed g_Sa g_S).
  - exists {["a"]}, {["S"]}, [("S", ["a"])]. vm_compute. reflexivity.
  - exists ∅, {["S"]}, []. vm_compute. reflexivity.
Defined.

(** ** Membership queries on well-typed values *)


Lemma all_tokens_known_Forall g tokens :
  all_tokens_known g tokens = true
  ↔ Forall (λ t, t ∈ all_symbols g) tokens.
Proof.
  induction tokens as [|t tokens IH]; cbn.
  - split; [constructor|done].
  - rewrite Forall_cons. case_bool_decide; cbn; [|intuition congruence].
    rewrite IH. tauto.
Qed.

(** [is_valid_string] never raises, and it answers [True] exactly on the
    strings of at most one token whose token, if any, is a symbol: the empty
    string, blank strings, and single symbols. *)
Theorem is_valid_string_true_iff (g : CFG) (s : string) :
  ∃ b, is_valid_string g s = Ok b
       ∧ (b = true
          ↔ (length (split s) ≤ 1)%nat
            ∧ Forall (λ t, t ∈ all_symbols g) (split s)).
Proof.
  destruct (le_lt_dec (length (split s)) 1) as [Hle|Hgt].
  - unfold is_valid_string.
    replace (Z.to_nat (Z.of_nat (length (split s)) - 1)) with 0%nat by lia.
    destruct (all_tokens_known g (split s)) eqn:E; cbn.
    + exists true. split; [done|]. apply all_tokens_known_Forall in E. tauto.
    + exists false. split; [done|]. split; [done|]. intros [_ H].
      apply all_tokens_known_Forall in H. congruence.
  - exists false. rewrite is_valid_string_two_tokens by lia.
    split; [done|]. split; [done|]. lia.
Qed.

Lemma is_valid_string_true_iff_witness :
  is_valid_string g_Sa "" = Ok true ∧ is_valid_string g_Sa " a " = Ok true.
Proof.
  split.
  - destruct (is_valid_string_true_iff g_Sa "") as (b & E & Hb).
    rewrite E. f_equal. apply Hb. split; [vm_compute; lia|].
    vm_compute. constructor.
  - destruct (is_valid_string_true_iff g_Sa " a ") as (b & E & Hb).
    rewrite E. f_equal. apply Hb. split; [vm_compute; lia|].
    repeat constructor.
Defined.

(** ** Generating, then splitting and validating *)

Lemma chain_symbols g x rest :
  constructed g → chain g x rest → Forall (λ s, s ∈ all_symbols g) rest.
Proof.
  intros Hg. destruct (constructed_inv g Hg) as [Hall [_ HP]].
  rewrite Forall_forall in HP.
  revert x. induction rest as [|y rest IH]; intros x; [constructor|].
  intros [(p & Hp & _ & Hy) Hch]. constructor; [|by eapply IH].
  destruct (HP p Hp) as [_ Hr]. rewrite Forall_forall in Hr.
  rewrite Hall. by apply Hr.
Qed.

Lemma split_from_nonspace cur c s :
  is_space c = false →
  split_from cur (String c s) = split_from (cur ++ String c "") s.
Proof. intros H. cbn [split_from]. by rewrite H. Qed.

Lemma split_from_space c d s :
  is_space d = true →
  split_from (String c "") (String d s) = String c "" :: split_from "" s.
Proof. intros H. cbn [split_from]. by rewrite H. Qed.

(** Splitting the text of a walk over one-character, non-blank symbols gives
    the symbols back. *)
Lemma split_walk_text c rest :
  is_space c = false →
  Forall (λ s, ∃ d, s = String d "" ∧ is_space d = false) rest →
  split_from "" (String c (walk_text rest)) = String c "" :: rest.
Proof.
  intros Hc Hrest. revert c Hc.
  induction Hrest as [|y rest (d & -> & Hd) _ IH]; intros c Hc.
  - rewrite split_from_nonspace by done. reflexivity.
  - change (walk_text (String d "" :: rest))
      with (String " " (String d (walk_text rest))).
    rewrite split_from_nonspace by done.
    change ("" ++ String c "") with (String c "").
    rewrite split_from_space by done. by rewrite IH.
Qed.



(** ** The script *)

Lemma letters_remove_a : py_remove "a" letters = Ok letters_without_a.
Proof. reflexivity. Qed.

Lemma g_main_init :
  __init__ (list_to_set (chars "a")) (list_to_set letters_without_a)
           (append_rules [] letters_without_a letters) = Ok g_main.
Proof. vm_compute. reflexivity. Qed.

Lemma main_unfold rs : main rs = generate g_main "S" 10 "uniform" rs.
Proof.
  unfold main. unfold mbind at 1. unfold Gen_bind, lift.
  change (chars (ascii_lowercase ++ ascii_uppercase)) with letters.
  rewrite letters_remove_a. unfold mbind at 1. unfold Gen_bind.
  by rewrite g_main_init.
Qed.

Lemma g_main_constructed : constructed g_main.
Proof. eexists _, _, _. apply g_main_init. Qed.

Lemma g_main_symbols s :
  s ∈ all_symbols g_main ↔ s ∈ letters.
Proof.
  unfold g_main. cbn [all_symbols].
  rewrite elem_of_union, !elem_of_list_to_set.
  change letters with ("a" :: letters_without_a). rewrite elem_of_cons.
  change (chars "a") with ["a"]. rewrite list_elem_of_singleton. tauto.
Qed.

Lemma letters_plain :
  Forall (λ s, ∃ c, s = String c "" ∧ is_space c = false) letters.
Proof. repeat (constructor; [eexists; split; reflexivity|]). constructor. Qed.

Lemma g_main_plain : plain_characters g_main.
Proof.
  intros s Hs. apply g_main_symbols in Hs.
  pose proof letters_plain as H. rewrite Forall_forall in H. by apply H.
Qed.

Lemma g_main_rules :
  Forall (λ p, p.2 ≠ []) (productions g_main).
Proof. apply (bool_decide_unpack _). vm_compute. exact I. Qed.

Lemma g_main_nonterminals_have_rules :
  Forall (λ s, productions_with_lhs s (productions g_main) ≠ [])
         letters_without_a.
Proof. apply (bool_decide_unpack _). vm_compute. exact I. Qed.

Lemma last_visited_elem x rest : last_visited x rest ∈ x :: rest.
Proof.
  revert x. induction rest as [|y rest IH]; intros x; [left|].
  rewrite last_visited_cons. right. apply IH.
Qed.

(** The script never raises.  For every state of the random source it prints
    the letter [S] followed by the letters the walk moved to, separated by
    single spaces, at most ten letters in all; the walk made two draws per
    move, and it stopped on the letter [a] or after exactly ten letters. *)
Theorem main_prints (rs : RandomState) :
  ∃ rest,
    fst (main rs) = Ok (py_join " " ("S" :: rest))
    ∧ split (py_join " " ("S" :: rest)) = "S" :: rest
    ∧ Forall (λ s, s ∈ letters) rest
    ∧ (length ("S" :: rest) ≤ 10)%nat
    ∧ (last_visited "S" rest = "a" ∨ length ("S" :: rest) = 10%nat)
    ∧ consumed (snd (main rs)) = (consumed rs + 2 * length rest)%nat.
Proof.
  rewrite main_unfold.
  pose proof g_main_constructed as Hg.
  assert ("S" ∈ nonterminal_symbols g_main) as HS.
  { apply elem_of_list_to_set. apply (bool_decide_unpack _). vm_compute. exact I. }
  destruct (generate_uniform_cases g_main "S" 10 rs Hg HS)
    as (rest & rs' & Hlen & Hch & [(E & Hcons & Hstop)|(msg & p & E & Hbad)]);
    [lia| |].
  2:{ destruct Hbad as (_ & Hp & _ & Hempty).
      pose proof g_main_rules as H. rewrite Forall_forall in H.
      by destruct (H p Hp). }
  exists rest.
  pose proof (chain_symbols g_main "S" rest Hg Hch) as Hin.
  assert (Forall (λ s, ∃ d, s = String d "" ∧ is_space d = false) rest)
    as Hrest.
  { eapply Forall_impl; [exact Hin|]. apply g_main_plain. }
  assert (py_join " " ("S" :: rest) = "S" ++ walk_text rest) as Hjoin.
  { apply py_join_walk_text.
    eapply Forall_impl; [exact Hrest|]. by intros s (d & -> & _). }
  rewrite Hjoin, E. cbn [fst snd].
  split; [done|].
  split; [by apply (split_walk_text "S")|].
  split; [eapply Forall_impl; [exact Hin|]; apply g_main_symbols|].
  split; [cbn in Hlen |- *; lia|].
  split; [|done].
  destruct Hstop as [Hnone|Hfull]; [left|right; lia].
  assert (last_visited "S" rest ∈ letters) as Hlast.
  { pose proof (last_visited_elem "S" rest) as H.
    apply elem_of_cons in H as [->|H].
    - apply (bool_decide_unpack _). vm_compute. exact I.
    - apply g_main_symbols. rewrite Forall_forall in Hin. by apply Hin. }
  change letters with ("a" :: letters_without_a) in Hlast.
  apply elem_of_cons in Hlast as [Ha|Hnt]; [done|].
  pose proof g_main_nonterminals_have_rules as H.
  rewrite Forall_forall in H. by destruct (H _ Hnt).
Qed.

(** ** Terminals end the walk *)




